(** * CS Portfolio API: seeding routine and request handlers

    A shallow embedding of [main.py] and [schemas.py].  The handlers are
    written against the store adapter they import from [database]
    ([db], [create_document], [get_documents]); the adapter is an
    interface here, and every handler is a program over a world made of
    the adapter's state and the trace of adapter calls made so far.
    [database.py] itself is not among the sources; where a property
    needs to know what the store keeps, it is stated on an in-memory
    adapter written from the specification of the store. *)

From Stdlib Require Import Ascii String.
From stdpp Require Import gmap strings list fin_maps pretty.

Open Scope string_scope.
Open Scope nat_scope.
Open Scope list_scope.

(** ** Python values *)

(** The values a document field or a response field can hold.  A Python
    [str] is the [string] of its characters, one [ascii] per character;
    the status markers of [test_database] use characters beyond that
    range, written as their UTF-8 bytes, and nothing measures or slices
    them.
    [VObjectId] is the identifier type the store assigns ([bson.ObjectId]),
    carried as its 24-digit hexadecimal text.  Nested documents are not
    modelled: no handler looks inside a field. *)
#[warnings="-register-all"]
Inductive pyval : Type :=
| VNone
| VBool (b : bool)
| VInt (n : Z)
| VStr (s : string)
| VObjectId (hex : string)
| VList (items : list pyval).

(** A document is a Python [dict] with string keys. *)
Abbreviation doc := (gmap string pyval).

(** [bool(v)]: the truth value Python's [if v:] tests. *)
Definition truthy (v : pyval) : bool :=
  match v with
  | VNone => false
  | VBool b => b
  | VInt n => negb (n =? 0)%Z
  | VStr s => negb (String.eqb s "")
  | VObjectId _ => true
  | VList items => match items with [] => false | _ => true end
  end.

Definition squote : ascii := "'"%char.
Definition dquote : ascii := ascii_of_nat 34.
Definition backslash : ascii := "\"%char.

Definition hex_digit (n : nat) : ascii :=
  default "0"%char (list_ascii_of_string "0123456789abcdef" !! n).

Definition hex_escape (n : nat) : string :=
  String backslash (String "x" (String (hex_digit (n / 16)) (String (hex_digit (n mod 16)) ""))).

(** One character of [repr(s)] for a [str] quoted with [quote]. *)
Definition repr_char (quote c : ascii) : string :=
  let n := nat_of_ascii c in
  if bool_decide (c = backslash ∨ c = quote) then String backslash (String c "")
  else if bool_decide (n = 9) then String backslash "t"
  else if bool_decide (n = 10) then String backslash "n"
  else if bool_decide (n = 13) then String backslash "r"
  else if bool_decide (n < 32 ∨ n = 127)%nat then hex_escape n
  else if bool_decide (n < 127)%nat then String c ""
  else if bool_decide (n ≤ 160 ∨ n = 173)%nat then hex_escape n
  else String c "".

(** [repr(s)] for a [str]: single quotes unless the text holds a single
    quote and no double quote. *)
Definition repr_str (s : string) : string :=
  let cs := list_ascii_of_string s in
  let quote :=
    if bool_decide (squote ∈ cs) && negb (bool_decide (dquote ∈ cs))
    then dquote else squote in
  String quote (foldr (λ c acc, repr_char quote c +:+ acc) (String quote "") cs).

Fixpoint join (sep : string) (parts : list string) : string :=
  match parts with
  | [] => ""
  | [p] => p
  | p :: rest => p +:+ sep +:+ join sep rest
  end.

Fixpoint py_repr (v : pyval) : string :=
  match v with
  | VNone => "None"
  | VBool true => "True"
  | VBool false => "False"
  | VInt n => pretty n
  | VStr s => repr_str s
  | VObjectId hex => "ObjectId('" +:+ hex +:+ "')"
  | VList items => "[" +:+ join ", " (map py_repr items) +:+ "]"
  end.

(** [str(v)]. *)
Definition py_str (v : pyval) : string :=
  match v with
  | VStr s => s
  | VObjectId hex => hex
  | _ => py_repr v
  end.

(** [s[:n]]. *)
Fixpoint slice_to (n : nat) (s : string) : string :=
  match n, s with
  | S n', String c s' => String c (slice_to n' s')
  | _, _ => ""
  end.

(** ** Exceptions

    What [except Exception] catches.  [HTTPException] is the framework's
    exception that a handler raises to answer with an error status; any
    other exception is observed only through [str(e)]. *)
Inductive exn : Type :=
| Exception (description : string)
| HTTPException (status_code : nat) (detail : string).

(** [str(e)]. *)
Definition str_exn (e : exn) : string :=
  match e with
  | Exception description => description
  | HTTPException status_code detail => pretty status_code +:+ ": " +:+ detail
  end.

Inductive outcome (A : Type) : Type :=
| Ok (a : A)
| Raise (e : exn).
Arguments Ok {A} a.
Arguments Raise {A} e.

(** ** Schemas ([schemas.py]) *)

Module Service.
(** [starting_price] is a float in the schema; the program only ever
    writes whole amounts, kept here as integers. *)
Record t : Type := mk {
  title : string;
  summary : string;
  icon : option string;
  starting_price : option Z;
  tags : list string }.
End Service.

Module BlogPost.
Record t : Type := mk {
  title : string;
  slug : string;
  excerpt : string;
  content : string;
  author : string;
  cover_image : option string;
  tags : list string }.
(** The constructor call of the source, with the schema's defaults for
    [author] and [cover_image]. *)
Definition new (title slug excerpt content : string) (tags : list string) : t :=
  mk title slug excerpt content "Admin" None tags.
End BlogPost.

Module ContactMessage.
(** [created_at] is a timestamp, kept as seconds. *)
Record t : Type := mk {
  name : string;
  email : string;
  phone : option string;
  subject : string;
  message : string;
  source : option string;
  created_at : option Z }.
End ContactMessage.

Module ContactResponse.
Record t : Type := mk {
  status : string;
  message : string }.
End ContactResponse.

(** What [create_document] is handed: an instance of one of the schemas. *)
Inductive record : Type :=
| RService (svc : Service.t)
| RBlogPost (post : BlogPost.t)
| RContactMessage (message : ContactMessage.t).

(** ** State and exceptions

    A computation over a mutable state [Σ] that returns or raises; what
    it did to the state before raising stays done. *)
Definition M (Σ A : Type) : Type := Σ → outcome A * Σ.

#[global] Instance M_ret {Σ} : MRet (M Σ) :=
  λ A a σ, (Ok a, σ).

#[global] Instance M_bind {Σ} : MBind (M Σ) :=
  λ A B k m σ,
    match m σ with
    | (Ok a, σ') => k a σ'
    | (Raise e, σ') => (Raise e, σ')
    end.

Definition raise {Σ A} (e : exn) : M Σ A := λ σ, (Raise e, σ).

(** [try: body  except Exception as e: handler]. *)
Definition try_except {Σ A} (body : M Σ A) (handler : exn → M Σ A) : M Σ A :=
  λ σ,
    match body σ with
    | (Ok a, σ') => (Ok a, σ')
    | (Raise e, σ') => handler e σ'
    end.

(** [for x in xs: body]. *)
Fixpoint for_each {Σ A} (xs : list A) (body : A → M Σ unit) : M Σ unit :=
  match xs with
  | [] => mret ()
  | x :: rest => body x ;; for_each rest body
  end.

(** ** The store adapter *)

(** The two operations imported from [database].  Each takes the
    adapter's state and gives what the call returns or raises, with the
    state after it.  An omitted argument of [get_documents] is [None]. *)
Class Adapter (S : Type) : Type := {
  adapter_get_documents :
    string → option doc → option nat → S → outcome (list doc) * S;
  adapter_create_document :
    string → record → S → outcome string * S }.

(** The adapter calls a program makes, in order. *)
Inductive call : Type :=
| GetDocuments (collection_name : string) (filter_dict : option doc) (limit : option nat)
| CreateDocument (collection_name : string) (data : record).

Record world (S : Type) : Type := World {
  store : S;
  trace : list call }.
Arguments World {S} store trace.
Arguments store {S} w.
Arguments trace {S} w.

Abbreviation prog S := (M (world S)).

(** What a list endpoint returns: [{"data": ...}], with a ["warning"]
    key on the fallback path only. *)
Record envelope : Type := Envelope {
  data : list doc;
  warning : option string }.

(** The loop body of the list endpoints:
    [if s.get("_id"): s["id"] = str(s.pop("_id"))].
    [s.get] gives [None], which is falsy, for a missing key. *)
Definition rename_id (s : doc) : doc :=
  match s !! "_id" with
  | Some oid => if truthy oid then <["id" := VStr (py_str oid)]> (delete "_id" s) else s
  | None => s
  end.

Definition service_defaults : list Service.t := [
  Service.mk "Company Incorporation (Pvt Ltd/LLP)" "End-to-end incorporation with DIN, DSC, name approval, MOA/AOA, PAN & TAN." (Some "building2") (Some 8999%Z) ["startup"; "roc"; "mca"];
  Service.mk "Annual ROC Filings" "AOC-4, MGT-7, board reports, AGM documentation and compliance calendar." (Some "file-text") (Some 4999%Z) ["roc"; "compliance"];
  Service.mk "Director KYC (DIR-3 KYC)" "KYC for directors with DSC assistance and filing." (Some "id-card") (Some 999%Z) ["dir-3"; "kyc"];
  Service.mk "GST Registration & Returns" "GSTIN registration, monthly/quarterly returns and advisory." (Some "receipt") (Some 1499%Z) ["gst"; "tax"];
  Service.mk "Share Allotment & Transfer" "PAS-3, SH-7, share certificates issue/transfer and register maintenance." (Some "layers") (Some 3499%Z) ["secretarial"; "shares"];
  Service.mk "Secretarial Audit & Compliance" "Event-based filings, board/GM minutes, registers and due diligence." (Some "shield-check") (Some 6999%Z) ["audit"; "secretarial"];
  Service.mk "MSME/Udyam Registration" "Register your enterprise under Udyam for government benefits." (Some "badge-check") (Some 799%Z) ["msme"; "udyam"];
  Service.mk "Trademark Filing (Partner Network)" "Facilitated TM search and filing through trusted IP partners." (Some "copyright") (Some 2999%Z) ["ip"; "brand"];
  Service.mk "ESOP/Cap Table Advisory" "Design ESOP policies, grants and basic cap table setup." (Some "pie-chart") (Some 5999%Z) ["esop"; "advisory"];
  Service.mk "FEMA/FDI Compliance" "FC-GPR/FC-TRS filings, share pricing and RBI compliance." (Some "globe") (Some 9999%Z) ["fema"; "fdi"]
].

Definition blog_defaults : list BlogPost.t := [
  BlogPost.new
    "ROC Annual Filing Checklist for Private Companies (FY 2024-25)"
    "roc-annual-filing-checklist-2024-25"
    "A concise checklist to complete AOC-4, MGT-7 and key board approvals on time."
    "Step-by-step guide covering financial statements, board report, auditor report, AOC-4, MGT-7/7A, due dates and penalties."
    ["roc"; "checklist"; "private-company"];
  BlogPost.new
    "DIR-3 KYC: Due Dates, Forms and Penalties"
    "dir-3-kyc-due-dates-forms"
    "Everything about Director KYC and how to avoid deactivation."
    "Who needs to file DIR-3 KYC, documents required, e-Form vs Web KYC, timelines and fees."
    ["dir-3"; "kyc"];
  BlogPost.new
    "Incorporation: Pvt Ltd vs LLP in India"
    "incorporation-pvtltd-vs-llp"
    "Structure, compliance and taxation comparison to choose the right entity."
    "We cover partner liability, compliance burden, funding readiness and exit scenarios."
    ["incorporation"; "llp"; "pvtltd"]
].

Definition strs (l : list string) : pyval := VList (VStr <$> l).

Definition services_fallback : list doc := [
  list_to_map [("title", VStr "Company Incorporation"); ("summary", VStr "End-to-end incorporation with MCA."); ("icon", VStr "building2"); ("starting_price", VInt 8999); ("tags", strs ["startup"])];
  list_to_map [("title", VStr "Annual ROC Filings"); ("summary", VStr "AOC-4, MGT-7 & more."); ("icon", VStr "file-text"); ("starting_price", VInt 4999); ("tags", strs ["compliance"])]
].

Definition blogs_fallback : list doc := [
  list_to_map [("title", VStr "ROC Annual Filing Checklist for Private Companies (FY 2024-25)"); ("slug", VStr "roc-annual-filing-checklist-2024-25"); ("excerpt", VStr "A concise checklist to complete AOC-4, MGT-7 and key approvals."); ("tags", strs ["roc"; "checklist"])];
  list_to_map [("title", VStr "DIR-3 KYC: Due Dates, Forms and Penalties"); ("slug", VStr "dir-3-kyc-due-dates-forms"); ("excerpt", VStr "Everything about Director KYC and how to avoid deactivation."); ("tags", strs ["dir-3"; "kyc"])]
].

(** ** The seeding routine and the handlers ([main.py]) *)

Section Handlers.
Context {S : Type} {adapter : Adapter S}.

Definition get_documents (collection_name : string) (filter_dict : option doc)
    (limit : option nat) : prog S (list doc) :=
  λ w,
    let '(r, s) := adapter_get_documents collection_name filter_dict limit (store w) in
    (r, World s (trace w ++ [GetDocuments collection_name filter_dict limit])).

Definition create_document (collection_name : string) (data : record) : prog S string :=
  λ w,
    let '(r, s) := adapter_create_document collection_name data (store w) in
    (r, World s (trace w ++ [CreateDocument collection_name data])).

(** The leading [try] block of both seeding functions either returns
    from the function or falls through to the inserts; the boolean says
    which: [true] is [return]. *)
Definition _seed_services_if_empty : prog S unit :=
  returned ← try_except
    (existing ← get_documents "service" (Some ∅) (Some 1);
     mret (bool_decide (existing ≠ [])))
    (λ _, mret true);
  if returned : bool then mret ()
  else
    let defaults := service_defaults in
    for_each defaults (λ svc,
      try_except
        (create_document "service" (RService svc) ;; mret ())
        (λ _, mret ())).

Definition _seed_blogs_if_empty : prog S unit :=
  returned ← try_except
    (existing ← get_documents "blogpost" (Some ∅) (Some 1);
     mret (bool_decide (existing ≠ [])))
    (λ _, mret true);
  if returned : bool then mret ()
  else
    let defaults := blog_defaults in
    for_each defaults (λ post,
      try_except
        (create_document "blogpost" (RBlogPost post) ;; mret ())
        (λ _, mret ())).

Definition startup_event : prog S unit :=
  _seed_services_if_empty ;; _seed_blogs_if_empty.

Definition list_services : prog S envelope :=
  try_except
    (services ← get_documents "service" None None;
     let services := rename_id <$> services in
     mret (Envelope services None))
    (λ e,
     let fallback := services_fallback in
     mret (Envelope fallback (Some (slice_to 120 (str_exn e))))).

Definition list_blogs : prog S envelope :=
  try_except
    (posts ← get_documents "blogpost" None None;
     let posts := rename_id <$> posts in
     mret (Envelope posts None))
    (λ e,
     let fallback := blogs_fallback in
     mret (Envelope fallback (Some (slice_to 120 (str_exn e))))).

Definition submit_contact (message : ContactMessage.t) : prog S ContactResponse.t :=
  try_except
    (create_document "contactmessage" (RContactMessage message) ;;
     mret (ContactResponse.mk "ok" "Thank you! We'll reach out shortly."))
    (λ e,
     raise (HTTPException 500 ("Unable to submit right now: " +:+ slice_to 100 (str_exn e)))).

End Handlers.

(** ** What the framework answers

    A handler that returns is answered with status 200 and the returned
    value as the body; a raised [HTTPException] with its status and a
    body [{"detail": ...}]; any other exception with a bare 500. *)
Inductive body (A : Type) : Type :=
| Json (content : A)
| Detail (detail : string)
| InternalServerError.
Arguments Json {A} content.
Arguments Detail {A} detail.
Arguments InternalServerError {A}.

Definition respond {A} (r : outcome A) : nat * body A :=
  match r with
  | Ok content => (200, Json content)
  | Raise (HTTPException status_code detail) => (status_code, Detail detail)
  | Raise (Exception _) => (500, InternalServerError)
  end.

(** ** The diagnostics endpoint *)

(** What reading an attribute of an object does: the attribute is not
    there, or has a value, or is a property that raises. *)
Inductive attribute : Type :=
| Missing
| Value (v : pyval)
| Failing (e : exn).

(** The [db] handle of [database], as far as [test_database] uses it. *)
Record Database : Type := {
  name : attribute;
  list_collection_names : outcome (list string) }.

(** [hasattr(obj, attr)] is false for a missing attribute and lets any
    other exception through. *)
Definition hasattr {Σ} (a : attribute) : M Σ bool :=
  match a with
  | Missing => mret false
  | Value _ => mret true
  | Failing e => raise e
  end.

Definition getattr {Σ} (attr : string) (a : attribute) : M Σ pyval :=
  match a with
  | Missing => raise (Exception ("'Database' object has no attribute " +:+ repr_str attr))
  | Value v => mret v
  | Failing e => raise e
  end.

(** [response[key] = v]. *)
Definition setitem (key : string) (v : pyval) : M doc unit :=
  λ response, (Ok (), <[key := v]> response).

(** Calling a method whose result is already known. *)
Definition invoke {Σ A} (r : outcome A) : M Σ A := λ σ, (r, σ).

(** [os.getenv(key)] tested as a condition: unset and empty are falsy. *)
Definition getenv (environ : gmap string string) (key : string) : bool :=
  match environ !! key with
  | Some value => negb (String.eqb value "")
  | None => false
  end.

Definition test_database (db : option Database) (environ : gmap string string) : outcome doc :=
  let response : doc := list_to_map [
    ("backend", VStr "✅ Running");
    ("database", VStr "❌ Not Available");
    ("database_url", VNone);
    ("database_name", VNone);
    ("connection_status", VStr "Not Connected");
    ("collections", VList [])] in
  let run : M doc unit :=
    try_except
      match db with
      | Some db =>
          setitem "database" (VStr "✅ Available") ;;
          setitem "database_url" (VStr "✅ Configured") ;;
          has_name ← hasattr (name db);
          database_name ← (if has_name : bool then getattr "name" (name db)
                           else mret (VStr "✅ Connected"));
          setitem "database_name" database_name ;;
          setitem "connection_status" (VStr "Connected") ;;
          try_except
            (collections ← invoke (list_collection_names db);
             setitem "collections" (strs (take 10 collections)) ;;
             setitem "database" (VStr "✅ Connected & Working"))
            (λ e, setitem "database" (VStr ("⚠️  Connected but Error: " +:+ slice_to 50 (str_exn e))))
      | None =>
          setitem "database" (VStr "⚠️  Available but not initialized")
      end
      (λ e, setitem "database" (VStr ("❌ Error: " +:+ slice_to 50 (str_exn e)))) ;;
    setitem "database_url" (VStr (if getenv environ "DATABASE_URL" then "✅ Set" else "❌ Not Set")) ;;
    setitem "database_name" (VStr (if getenv environ "DATABASE_NAME" then "✅ Set" else "❌ Not Set")) in
  match run response with
  | (Ok _, response) => Ok response
  | (Raise e, _) => Raise e
  end.

(** ** An in-memory store adapter *)

Fixpoint pyval_eqb (a b : pyval) : bool :=
  match a, b with
  | VNone, VNone => true
  | VBool x, VBool y => bool_decide (x = y)
  | VInt x, VInt y => bool_decide (x = y)
  | VStr x, VStr y => bool_decide (x = y)
  | VObjectId x, VObjectId y => bool_decide (x = y)
  | VList xs, VList ys =>
      (fix go (xs ys : list pyval) : bool :=
         match xs, ys with
         | [], [] => true
         | x :: xs', y :: ys' => pyval_eqb x y && go xs' ys'
         | _, _ => false
         end) xs ys
  | _, _ => false
  end.

(** The text of the [n]-th identifier: [digits] hexadecimal digits. *)
Fixpoint hex_fixed (digits n : nat) (acc : string) : string :=
  match digits with
  | 0 => acc
  | S digits' => hex_fixed digits' (n / 16) (String (hex_digit (n mod 16)) acc)
  end.

Definition object_id (n : nat) : string := hex_fixed 24 n EmptyString.

Definition opt_str (o : option string) : pyval :=
  match o with Some s => VStr s | None => VNone end.

Definition opt_int (o : option Z) : pyval :=
  match o with Some n => VInt n | None => VNone end.

(** Modelled from the spec: the document the store keeps for a record
    ([database.py] is not part of the sources) has the record's fields. *)
Definition to_document (data : record) : doc :=
  match data with
  | RService svc => list_to_map [
      ("title", VStr (Service.title svc));
      ("summary", VStr (Service.summary svc));
      ("icon", opt_str (Service.icon svc));
      ("starting_price", opt_int (Service.starting_price svc));
      ("tags", strs (Service.tags svc))]
  | RBlogPost post => list_to_map [
      ("title", VStr (BlogPost.title post));
      ("slug", VStr (BlogPost.slug post));
      ("excerpt", VStr (BlogPost.excerpt post));
      ("content", VStr (BlogPost.content post));
      ("author", VStr (BlogPost.author post));
      ("cover_image", opt_str (BlogPost.cover_image post));
      ("tags", strs (BlogPost.tags post))]
  | RContactMessage message => list_to_map [
      ("name", VStr (ContactMessage.name message));
      ("email", VStr (ContactMessage.email message));
      ("phone", opt_str (ContactMessage.phone message));
      ("subject", VStr (ContactMessage.subject message));
      ("message", VStr (ContactMessage.message message));
      ("source", opt_str (ContactMessage.source message));
      ("created_at", opt_int (ContactMessage.created_at message))]
  end.

(** The collections, each in insertion order, and the number of read
    and write calls received so far. *)
Record memory : Type := Memory {
  collections : gmap string (list doc);
  reads : nat;
  writes : nat }.

Definition contents (m : memory) (collection_name : string) : list doc :=
  collections m !!! collection_name.

(** A document matches a filter when it has every field of the filter
    with the same value. *)
Definition matches (filter_dict : doc) (d : doc) : bool :=
  bool_decide (map_Forall (λ k v, from_option (pyval_eqb v) false (d !! k) = true) filter_dict).

Definition up_to {A} (limit : option nat) (l : list A) : list A :=
  match limit with
  | Some n => take n l
  | None => l
  end.

Section Memory.
(** The environment of the store: [read_fault n] is what the [n]-th
    [get_documents] call raises, if the store is down at that time;
    [write_fault] likewise for [create_document]. *)
Variables read_fault write_fault : nat → option exn.

(** Modelled from the spec: [get_documents] of [database.py], which is
    not part of the sources.  It returns the records matching the
    filter, in insertion order, up to [limit] if given, and fails when
    the store cannot be reached. *)
Definition memory_get_documents (collection_name : string) (filter_dict : option doc)
    (limit : option nat) (m : memory) : outcome (list doc) * memory :=
  let m' := Memory (collections m) (S (reads m)) (writes m) in
  match read_fault (reads m) with
  | Some e => (Raise e, m')
  | None =>
      let found := filter (λ d, matches (default ∅ filter_dict) d = true) (contents m collection_name) in
      (Ok (up_to limit found), m')
  end.

(** Modelled from the spec: [create_document] of [database.py], which is
    not part of the sources.  It persists one record, which gains a
    store-assigned unique identifier, and returns that identifier; it
    fails when the store is unreachable or rejects the write. *)
Definition memory_create_document (collection_name : string) (data : record)
    (m : memory) : outcome string * memory :=
  match write_fault (writes m) with
  | Some e => (Raise e, Memory (collections m) (reads m) (S (writes m)))
  | None =>
      let oid := object_id (writes m) in
      let d := <["_id" := VObjectId oid]> (to_document data) in
      (Ok oid,
       Memory (<[collection_name := (contents m collection_name ++ [d])%list]> (collections m))
              (reads m) (S (writes m)))
  end.

Definition memory_adapter : Adapter memory := {|
  adapter_get_documents := memory_get_documents;
  adapter_create_document := memory_create_document |}.

End Memory.

(** A store that is always reachable and accepts every write. *)
Definition healthy : nat → option exn := λ _, None.

(** A test double: every read gives [on_read], every write [on_write]. *)
Definition stub_adapter (on_read : outcome (list doc)) (on_write : outcome string) : Adapter unit := {|
  adapter_get_documents := λ _ _ _ s, (on_read, s);
  adapter_create_document := λ _ _ s, (on_write, s) |}.

(** ** The two managed collections *)

Inductive managed : Type := service | blogpost.

Definition collection_of (c : managed) : string :=
  match c with service => "service" | blogpost => "blogpost" end.

Definition defaults_of (c : managed) : list record :=
  match c with
  | service => RService <$> service_defaults
  | blogpost => RBlogPost <$> blog_defaults
  end.

Definition seed {S} {adapter : Adapter S} (c : managed) : prog S unit :=
  match c with
  | service => _seed_services_if_empty
  | blogpost => _seed_blogs_if_empty
  end.

Definition list_endpoint {S} {adapter : Adapter S} (c : managed) : prog S envelope :=
  match c with
  | service => list_services
  | blogpost => list_blogs
  end.

Definition fallback_of (c : managed) : list doc :=
  match c with
  | service => services_fallback
  | blogpost => blogs_fallback
  end.

(** The emptiness query of the seeding routine, as a call. *)
Definition probe (c : managed) : call :=
  GetDocuments (collection_of c) (Some ∅) (Some 1).

(** ** Reading the seeding routine and the handlers *)

Section Reading.
Context {S : Type} {adapter : Adapter S}.

(** The insert loop of the seeding functions. *)
Definition insert_loop (collection_name : string) (defaults : list record) : prog S unit :=
  for_each defaults (λ r,
    try_except (create_document collection_name r ;; mret ()) (λ _, mret ())).

(** The adapter's state after it was handed each record in turn. *)
Definition attempt_all (collection_name : string) (defaults : list record) (s : S) : S :=
  foldl (λ s r, (adapter_create_document collection_name r s).2) s defaults.

(** Every [get_documents] call raises. *)
Definition unreachable : Prop :=
  ∀ collection_name filter_dict limit s,
    ∃ e s', adapter_get_documents collection_name filter_dict limit s = (Raise e, s').

(** Every [create_document] call raises. *)
Definition unwritable : Prop :=
  ∀ collection_name data s,
    ∃ e s', adapter_create_document collection_name data s = (Raise e, s').

End Reading.

(** The document kept for a record written by write number [i]. *)
Definition kept (i : nat) (data : record) : doc :=
  <["_id" := VObjectId (object_id i)]> (to_document data).

(** What a run of writes numbered from [n] leaves in the collection: the
    records at the positions where the store did not fail, in order. *)
Definition stored (write_fault : nat → option exn) (n : nat) (defaults : list record) : list doc :=
  (λ ir, kept ir.1 ir.2) <$>
    filter (λ ir, write_fault ir.1 = None) (zip (seq n (length defaults)) defaults).

(** The calls of one insertion pass over both collections. *)
Definition insertion_pass : list call :=
  probe service :: (CreateDocument "service" <$> defaults_of service) ++
  probe blogpost :: (CreateDocument "blogpost" <$> defaults_of blogpost).

(** ** Sample stores and records *)

(** An adapter that raises on every call. *)
Definition down : Adapter unit :=
  stub_adapter (Raise (Exception "Database not available")) (Raise (Exception "Database not available")).

(** An adapter whose every call raises an exception with no text, as
    [raise Exception()] does. *)
Definition silent : Adapter unit :=
  stub_adapter (Raise (Exception "")) (Raise (Exception "")).

(** A store that rejects every second write. *)
Definition flaky (n : nat) : option exn :=
  if Nat.even n then None else Some (Exception "write rejected").

(** A store in which the service collection holds one record. *)
Definition seeded_once : memory :=
  Memory {[ "service" := [kept 0 (RService (Service.mk "Audit" "Yearly audit." None None []))] ]} 1 1.

(** A store read that gives one record with a store-assigned identifier. *)
Definition one_post : doc :=
  list_to_map [("_id", VObjectId "65f0c1a2b3d4e5f601234567"); ("title", VStr "Notes")].

(** A record the store can hold whose identifier is the number zero. *)
Definition legacy : doc :=
  list_to_map [("_id", VInt 0); ("title", VStr "Legacy")].

(** A record without an identifier that already has a public [id]. *)
Definition draft : doc :=
  list_to_map [("id", VStr "draft-1"); ("title", VStr "Draft")].

(** The acknowledgment of a stored contact message. *)
Definition acknowledgment : ContactResponse.t :=
  ContactResponse.mk "ok" "Thank you! We'll reach out shortly.".

(** The payload of the scenario in the specification. *)
Definition hello : ContactMessage.t :=
  ContactMessage.mk "A" "a@b.com" None "S" "M" None None.

(** A reachable database named portfolio, holding the two managed
    collections. *)
Definition portfolio : Database := {|
  name := Value (VStr "portfolio");
  list_collection_names := Ok ["service"; "blogpost"] |}.

(** A database handle whose listing call times out. *)
Definition stalled : Database := {|
  name := Value (VStr "portfolio");
  list_collection_names := Raise (Exception "timed out") |}.

(** A database handle whose [name] property raises. *)
Definition broken_handle : Database := {|
  name := Failing (Exception "connection closed");
  list_collection_names := Ok ["service"] |}.

(** [GET /]. *)
Definition read_root : doc :=
  {[ "message" := VStr "CS Portfolio API is running" ]}.

(** The keys of the diagnostics answer. *)
Definition diagnostics_keys : gset string :=
  list_to_set ["backend"; "database"; "database_url"; "database_name";
               "connection_status"; "collections"].

(** * Properties *)

(** ** Values *)

Lemma pyval_eqb_eq : ∀ a b, pyval_eqb a b = true → a = b.
Proof.
  fix IH 1.
  intros [|x|x|x|x|xs] [|y|y|y|y|ys]; simpl; try discriminate;
    try (intros ?%bool_decide_eq_true; congruence); [done|].
  intros H. f_equal. revert ys H.
  induction xs as [|x xs IHxs]; intros [|y ys]; try done.
  intros [H1 H2]%andb_prop. f_equal; [by apply IH | by apply IHxs].
Qed.

Lemma pyval_eqb_refl : ∀ a, pyval_eqb a a = true.
Proof.
  fix IH 1.
  intros [|x|x|x|x|xs]; simpl; try done; try (by apply bool_decide_eq_true).
  induction xs as [|x xs IHxs]; [done|].
  by rewrite IH, IHxs.
Qed.

(** ** Text *)

Lemma slice_to_length n s : String.length (slice_to n s) ≤ n.
Proof.
  revert s. induction n as [|n IH]; intros [|c s]; simpl; try lia.
  specialize (IH s). lia.
Qed.

Lemma slice_to_nonempty n s : s ≠ "" → slice_to (S n) s ≠ "".
Proof. by destruct s. Qed.

Lemma slice_to_short n s : String.length s ≤ n → slice_to n s = s.
Proof.
  revert s. induction n as [|n IH]; intros [|c s]; simpl; try done; try lia.
  intros Hlen. f_equal. apply IH. lia.
Qed.

(** ** The seeding routine over any adapter *)

Section Seeding.
Context {S : Type} {adapter : Adapter S}.

Lemma for_each_fmap {A B} (f : A → B) (xs : list A) (body : B → prog S unit) w :
  for_each (f <$> xs) body w = for_each xs (λ x, body (f x)) w.
Proof.
  revert w. induction xs as [|x xs IH]; intros w; [done|].
  simpl. unfold mbind, M_bind. destruct (body (f x) w) as [[[]|e] w']; [apply IH | done].
Qed.

Lemma insert_loop_run collection_name defaults w :
  insert_loop collection_name defaults w =
  (Ok (), World (attempt_all collection_name defaults (store w))
                (trace w ++ (CreateDocument collection_name <$> defaults))).
Proof.
  revert w. induction defaults as [|r rs IH]; intros [s tr].
  - simpl. by rewrite app_nil_r.
  - unfold insert_loop in *. simpl.
    unfold mbind at 1, M_bind at 1, try_except, create_document, mbind, M_bind. simpl.
    destruct (adapter_create_document collection_name r s) as [[oid|e] s'] eqn:E; simpl;
      rewrite IH; simpl; by rewrite <- app_assoc.
Qed.

(** The three ways the seeding routine for a collection can go, by what
    its emptiness query does. *)
Lemma seed_run (c : managed) (w : world S) :
  seed c w =
  let w' s := World s (trace w ++ [probe c]) in
  match adapter_get_documents (collection_of c) (Some ∅) (Some 1) (store w) with
  | (Raise _, s) => (Ok (), w' s)
  | (Ok (_ :: _), s) => (Ok (), w' s)
  | (Ok [], s) => insert_loop (collection_of c) (defaults_of c) (w' s)
  end.
Proof.
  destruct c; unfold seed, _seed_services_if_empty, _seed_blogs_if_empty, insert_loop;
    unfold mbind at 1, M_bind at 1, try_except at 1, mbind at 1, M_bind at 1, get_documents;
    simpl collection_of; unfold probe; simpl collection_of;
    destruct (adapter_get_documents _ _ _ _) as [[[|d ds]|e] s]; try done;
    unfold defaults_of; by rewrite for_each_fmap.
Qed.

(** A collection in which the query finds a record gets no insert. *)
Lemma seed_leaves_populated (c : managed) (w : world S) d ds s :
  adapter_get_documents (collection_of c) (Some ∅) (Some 1) (store w) = (Ok (d :: ds), s) →
  seed c w = (Ok (), World s (trace w ++ [probe c])).
Proof. intros Hq. rewrite seed_run. by rewrite Hq. Qed.

End Seeding.

(** ** The in-memory store *)

Lemma matches_empty d : matches ∅ d = true.
Proof. unfold matches. apply bool_decide_eq_true. apply map_Forall_empty. Qed.

Lemma matches_fields filter_dict d :
  matches filter_dict d = true ↔ ∀ k v, filter_dict !! k = Some v → d !! k = Some v.
Proof.
  unfold matches. rewrite bool_decide_eq_true. unfold map_Forall.
  split; intros Hall k v Hk; specialize (Hall k v Hk).
  - destruct (d !! k) as [v'|]; [|done]. simpl in Hall.
    by rewrite (pyval_eqb_eq v v' Hall).
  - rewrite Hall. simpl. apply pyval_eqb_refl.
Qed.

Lemma filter_all {A} (P : A → Prop) `{!∀ x, Decision (P x)} (l : list A) :
  (∀ x, P x) → filter P l = l.
Proof.
  intros HP. induction l as [|x l IH]; [done|].
  rewrite filter_cons_True by done. by rewrite IH.
Qed.

Section MemoryFacts.
Variables read_fault write_fault : nat → option exn.
Let A : Adapter memory := memory_adapter read_fault write_fault.

Lemma stored_cons n r rs :
  stored write_fault n (r :: rs) =
  match write_fault n with
  | None => kept n r :: stored write_fault (S n) rs
  | Some _ => stored write_fault (S n) rs
  end.
Proof.
  unfold stored. simpl. rewrite filter_cons. simpl.
  destruct (write_fault n) eqn:E; by case_decide.
Qed.

Lemma attempt_all_memory collection_name defaults m :
  let m' := attempt_all (adapter:=A) collection_name defaults m in
  contents m' collection_name = contents m collection_name ++ stored write_fault (writes m) defaults
  ∧ (∀ other, other ≠ collection_name → contents m' other = contents m other)
  ∧ reads m' = reads m
  ∧ writes m' = writes m + length defaults.
Proof.
  revert m. induction defaults as [|r rs IH]; intros m; simpl.
  - unfold stored. simpl. rewrite app_nil_r. repeat split; lia.
  - rewrite stored_cons. unfold memory_create_document.
    destruct (write_fault (writes m)) as [e|] eqn:E; simpl.
    + destruct (IH (Memory (collections m) (reads m) (S (writes m)))) as (H1 & H2 & H3 & H4).
      simpl in *. repeat split; try done. lia.
    + set (m1 := Memory _ _ _).
      destruct (IH m1) as (H1 & H2 & H3 & H4). subst m1. simpl in *.
      repeat split; try done.
      * rewrite H1. unfold contents at 1. simpl.
        rewrite lookup_total_insert_eq. by rewrite <- app_assoc.
      * intros other Hne. rewrite H2 by done. unfold contents at 1. simpl.
        by rewrite lookup_total_insert_ne.
      * lia.
Qed.

Lemma probe_memory (c : managed) m :
  read_fault (reads m) = None →
  adapter_get_documents (Adapter:=A) (collection_of c) (Some ∅) (Some 1) m =
  (Ok (take 1 (contents m (collection_of c))), Memory (collections m) (S (reads m)) (writes m)).
Proof.
  intros Hup. simpl. unfold memory_get_documents. rewrite Hup. simpl.
  rewrite filter_all; [done|]. intros d. apply matches_empty.
Qed.

Lemma read_all_memory collection_name m :
  read_fault (reads m) = None →
  adapter_get_documents (Adapter:=A) collection_name None None m =
  (Ok (contents m collection_name), Memory (collections m) (S (reads m)) (writes m)).
Proof.
  intros Hup. simpl. unfold memory_get_documents. rewrite Hup. simpl.
  rewrite filter_all; [done|]. intros d. apply matches_empty.
Qed.

(** A collection that holds a record is left alone, whatever the store
    does. *)
Lemma seed_memory_nonempty (c : managed) m tr :
  contents m (collection_of c) ≠ [] →
  seed (adapter:=A) c (World m tr) =
  (Ok (), World (Memory (collections m) (S (reads m)) (writes m)) (tr ++ [probe c])).
Proof.
  intros Hne. rewrite seed_run. simpl store. simpl trace.
  destruct (read_fault (reads m)) as [e|] eqn:Hup.
  - simpl. unfold memory_get_documents. by rewrite Hup.
  - rewrite probe_memory by done.
    destruct (contents m (collection_of c)); done.
Qed.

(** An empty collection of a reachable store gets the defaults the
    store accepts. *)
Lemma seed_memory_empty (c : managed) m tr :
  read_fault (reads m) = None →
  contents m (collection_of c) = [] →
  ∃ m',
    seed (adapter:=A) c (World m tr) =
      (Ok (), World m' (tr ++ probe c :: (CreateDocument (collection_of c) <$> defaults_of c)))
    ∧ contents m' (collection_of c) = stored write_fault (writes m) (defaults_of c)
    ∧ (∀ other, other ≠ collection_of c → contents m' other = contents m other)
    ∧ reads m' = S (reads m)
    ∧ writes m' = writes m + length (defaults_of c).
Proof.
  intros Hup Hempty. rewrite seed_run. simpl store. simpl trace.
  rewrite probe_memory by done. rewrite Hempty. simpl take. cbv zeta.
  rewrite insert_loop_run. simpl store. simpl trace.
  set (m1 := Memory _ _ _).
  destruct (attempt_all_memory (collection_of c) (defaults_of c) m1) as (H1 & H2 & H3 & H4).
  eexists. split; [by rewrite <- app_assoc|].
  subst m1. unfold contents in *. simpl in *. rewrite Hempty in H1.
  repeat split; done.
Qed.

End MemoryFacts.

(** ** The handlers over any adapter *)

Section Endpoints.
Context {S : Type} {adapter : Adapter S}.

Lemma list_endpoint_success (c : managed) (w : world S) docs s :
  adapter_get_documents (collection_of c) None None (store w) = (Ok docs, s) →
  list_endpoint c w =
  (Ok (Envelope (rename_id <$> docs) None),
   World s (trace w ++ [GetDocuments (collection_of c) None None])).
Proof.
  intros Hget.
  destruct c; simpl in Hget; unfold list_endpoint, list_services, list_blogs,
    try_except, mbind, M_bind, get_documents; by rewrite Hget.
Qed.

Lemma list_endpoint_failure (c : managed) (w : world S) e s :
  adapter_get_documents (collection_of c) None None (store w) = (Raise e, s) →
  list_endpoint c w =
  (Ok (Envelope (fallback_of c) (Some (slice_to 120 (str_exn e)))),
   World s (trace w ++ [GetDocuments (collection_of c) None None])).
Proof.
  intros Hget.
  destruct c; simpl in Hget; unfold list_endpoint, list_services, list_blogs,
    try_except, mbind, M_bind, get_documents; by rewrite Hget.
Qed.

Lemma rename_id_truthy (d : doc) oid :
  d !! "_id" = Some oid → truthy oid = true →
  rename_id d !! "id" = Some (VStr (py_str oid)) ∧ rename_id d !! "_id" = None.
Proof.
  intros Hid Ht. unfold rename_id. rewrite Hid, Ht. split.
  - apply lookup_insert_eq.
  - rewrite lookup_insert_ne by done. apply lookup_delete_eq.
Qed.

Lemma rename_id_other (d : doc) :
  d !! "_id" = None ∨ (∃ v, d !! "_id" = Some v ∧ truthy v = false) →
  rename_id d = d.
Proof.
  unfold rename_id. intros [-> | (v & -> & ->)]; done.
Qed.

End Endpoints.

(** ** Seeding is idempotent *)

Lemma stored_healthy n defaults :
  stored healthy n defaults = (λ ir, kept ir.1 ir.2) <$> zip (seq n (length defaults)) defaults.
Proof. unfold stored. by rewrite filter_all. Qed.

Lemma stored_healthy_length n defaults :
  length (stored healthy n defaults) = length defaults.
Proof.
  rewrite stored_healthy, length_fmap, length_zip, length_seq. lia.
Qed.

Lemma contents_empty m collection_name :
  collections m = ∅ → contents m collection_name = [].
Proof. unfold contents. intros ->. by rewrite lookup_total_empty. Qed.

Lemma startup_run {S} {adapter : Adapter S} (w : world S) :
  startup_event w = match seed service w with
                    | (Ok _, w') => seed blogpost w'
                    | (Raise e, w') => (Raise e, w')
                    end.
Proof. reflexivity. Qed.

(** On a healthy store with nothing in it, startup makes one insertion
    pass and leaves both collections populated. *)
Lemma startup_memory_first m tr :
  collections m = ∅ →
  ∃ m1,
    startup_event (adapter:=memory_adapter healthy healthy) (World m tr) =
      (Ok (), World m1 (tr ++ insertion_pass))
    ∧ contents m1 "service" = stored healthy (writes m) (defaults_of service)
    ∧ contents m1 "blogpost" =
        stored healthy (writes m + length (defaults_of service)) (defaults_of blogpost).
Proof.
  intros Hempty. rewrite startup_run.
  destruct (seed_memory_empty healthy healthy service m tr) as (m1 & -> & Hs & Ho & _ & Hw);
    [done | by apply contents_empty |].
  destruct (seed_memory_empty healthy healthy blogpost m1
              (tr ++ probe service :: (CreateDocument (collection_of service) <$> defaults_of service)))
    as (m2 & -> & Hb & Ho2 & _ & _).
  { done. }
  { simpl collection_of. rewrite Ho by done. by apply contents_empty. }
  exists m2. split; [|split].
  - unfold insertion_pass. simpl collection_of. by rewrite <- app_assoc.
  - simpl collection_of in *. by rewrite Ho2.
  - simpl collection_of in *. by rewrite Hb, Hw.
Qed.

(** C1: a managed collection that already holds a record gets no insert
    from the seeding routine, whatever the store does; and two startups
    in a row on an empty healthy store make one insertion pass, the
    second one only querying the two collections. *)
Theorem seeding_idempotent :
  (∀ read_fault write_fault (c : managed) m tr,
     contents m (collection_of c) ≠ [] →
     seed (adapter:=memory_adapter read_fault write_fault) c (World m tr) =
       (Ok (), World (Memory (collections m) (S (reads m)) (writes m)) (tr ++ [probe c])))
  ∧ (∀ m tr,
       collections m = ∅ →
       ∃ m1 m2,
         startup_event (adapter:=memory_adapter healthy healthy) (World m tr) =
           (Ok (), World m1 (tr ++ insertion_pass))
         ∧ startup_event (adapter:=memory_adapter healthy healthy) (World m1 (tr ++ insertion_pass)) =
             (Ok (), World m2 ((tr ++ insertion_pass) ++ [probe service; probe blogpost]))
         ∧ collections m2 = collections m1).
Proof.
  split.
  - intros. by apply seed_memory_nonempty.
  - intros m tr Hempty.
    destruct (startup_memory_first m tr Hempty) as (m1 & Hrun & Hs & Hb).
    exists m1. eexists. split; [exact Hrun|].
    rewrite startup_run.
    rewrite (seed_memory_nonempty healthy healthy service).
    2:{ simpl collection_of. rewrite Hs. intros E%(f_equal length).
        rewrite stored_healthy_length in E. done. }
    rewrite (seed_memory_nonempty healthy healthy blogpost).
    2:{ simpl collection_of. unfold contents in Hb |- *. simpl collections. rewrite Hb.
        intros E%(f_equal length). rewrite stored_healthy_length in E. done. }
    split.
    + simpl. by rewrite <- app_assoc.
    + done.
Qed.

Lemma seeding_idempotent_witness :
  seed (adapter:=memory_adapter healthy healthy) service (World seeded_once []) =
    (Ok (), World (Memory (collections seeded_once) 2 1) [probe service])
  ∧ ∃ m1 m2,
      startup_event (adapter:=memory_adapter healthy healthy) (World (Memory ∅ 0 0) []) =
        (Ok (), World m1 insertion_pass)
      ∧ startup_event (adapter:=memory_adapter healthy healthy) (World m1 insertion_pass) =
          (Ok (), World m2 (insertion_pass ++ [probe service; probe blogpost]))
      ∧ collections m2 = collections m1.
Proof.
  split.
  - apply (proj1 seeding_idempotent healthy healthy service seeded_once []).
    vm_compute. discriminate.
  - apply (proj2 seeding_idempotent (Memory ∅ 0 0) []). reflexivity.
Defined.

(** ** Seeding when the store is down or rejects writes *)

(** C4: when the emptiness query of a managed collection raises, the
    seeding routine for it returns normally, having made that one call
    and attempted no insert; on a store whose every query raises,
    startup as a whole returns normally after its two queries. *)
Theorem seeding_skipped_when_unreachable {S : Type} {adapter : Adapter S} :
  (∀ (c : managed) (w : world S) e s,
     adapter_get_documents (collection_of c) (Some ∅) (Some 1) (store w) = (Raise e, s) →
     seed c w = (Ok (), World s (trace w ++ [probe c])))
  ∧ (unreachable →
     ∀ w : world S, ∃ s,
       startup_event w = (Ok (), World s (trace w ++ [probe service; probe blogpost]))).
Proof.
  assert (Hone : ∀ (c : managed) (w : world S) e s,
     adapter_get_documents (collection_of c) (Some ∅) (Some 1) (store w) = (Raise e, s) →
     seed c w = (Ok (), World s (trace w ++ [probe c]))).
  { intros c w e s Hq. rewrite seed_run. by rewrite Hq. }
  split; [exact Hone|].
  intros Hdown w. rewrite startup_run.
  destruct (Hdown (collection_of service) (Some ∅) (Some 1) (store w)) as (e1 & s1 & H1).
  rewrite (Hone service w e1 s1 H1).
  destruct (Hdown (collection_of blogpost) (Some ∅) (Some 1) s1) as (e2 & s2 & H2).
  rewrite (Hone blogpost (World s1 _) e2 s2 H2).
  exists s2. simpl. by rewrite <- app_assoc.
Qed.

Lemma seeding_skipped_when_unreachable_witness :
  seed (adapter:=down) blogpost (World () []) = (Ok (), World () [probe blogpost])
  ∧ ∃ s, startup_event (adapter:=down) (World () []) =
           (Ok (), World s [probe service; probe blogpost]).
Proof.
  split.
  - apply (proj1 (seeding_skipped_when_unreachable (adapter:=down)) blogpost (World () [])
             (Exception "Database not available") ()).
    reflexivity.
  - apply (proj2 (seeding_skipped_when_unreachable (adapter:=down))).
    intros collection_name filter_dict limit s. by eexists _, _.
Defined.

(** C5: when the emptiness query of a managed collection succeeds and
    finds nothing, the seeding routine hands every default to the store,
    in order, and returns normally whichever of the writes fail; the
    collection then holds the defaults whose write did not fail, in
    order, and no other collection changes. *)
Theorem seeding_skips_failed_inserts (read_fault write_fault : nat → option exn)
    (c : managed) (m : memory) (tr : list call) :
  read_fault (reads m) = None →
  contents m (collection_of c) = [] →
  ∃ m',
    seed (adapter:=memory_adapter read_fault write_fault) c (World m tr) =
      (Ok (), World m' (tr ++ probe c :: (CreateDocument (collection_of c) <$> defaults_of c)))
    ∧ contents m' (collection_of c) = stored write_fault (writes m) (defaults_of c)
    ∧ (∀ other, other ≠ collection_of c → contents m' other = contents m other).
Proof.
  intros Hup Hempty.
  destruct (seed_memory_empty read_fault write_fault c m tr Hup Hempty)
    as (m' & Hrun & Hc & Ho & _).
  by exists m'.
Qed.

Lemma seeding_skips_failed_inserts_witness :
  ∃ m',
    seed (adapter:=memory_adapter healthy flaky) blogpost (World (Memory ∅ 0 0) []) =
      (Ok (), World m' ([] ++ probe blogpost :: (CreateDocument "blogpost" <$> defaults_of blogpost)))
    ∧ contents m' "blogpost" = stored flaky 0 (defaults_of blogpost)
    ∧ (∀ other, other ≠ "blogpost" → contents m' other = contents (Memory ∅ 0 0) other).
Proof.
  apply (seeding_skips_failed_inserts healthy flaky blogpost (Memory ∅ 0 0) []); reflexivity.
Defined.

(** With every second write rejected, the first and the third default
    post are kept. *)
Example stored_flaky_blogs :
  (λ d : doc, d !! "slug") <$> stored flaky 0 (defaults_of blogpost) =
  [Some (VStr "roc-annual-filing-checklist-2024-25"); Some (VStr "incorporation-pvtltd-vs-llp")].
Proof. vm_compute. reflexivity. Qed.

(** ** Seeding an empty store *)

Lemma kept_service_title i svc :
  kept i (RService svc) !! "title" = Some (VStr (Service.title svc)).
Proof. unfold kept. rewrite lookup_insert_ne by done. reflexivity. Qed.

Lemma stored_healthy_titles n (defaults : list Service.t) :
  (λ d : doc, d !! "title") <$> stored healthy n (RService <$> defaults) =
  (λ svc, Some (VStr (Service.title svc))) <$> defaults.
Proof.
  rewrite stored_healthy, length_fmap.
  revert n. induction defaults as [|svc rest IH]; intros n; [done|].
  simpl. rewrite kept_service_title. f_equal. apply IH.
Qed.

(** C6: after startup on a healthy store with nothing in it, reading the
    service collection gives ten records, whose titles are those of the
    default list, in order. *)
Theorem seeded_services_listed (m : memory) (tr : list call) :
  collections m = ∅ →
  ∃ w1 docs w2,
    startup_event (adapter:=memory_adapter healthy healthy) (World m tr) = (Ok (), w1)
    ∧ get_documents (adapter:=memory_adapter healthy healthy) "service" None None w1 = (Ok docs, w2)
    ∧ length docs = 10
    ∧ (λ d : doc, d !! "title") <$> docs =
      (λ svc, Some (VStr (Service.title svc))) <$> service_defaults.
Proof.
  intros Hempty.
  destruct (startup_memory_first m tr Hempty) as (m1 & Hrun & Hs & _).
  eexists _, (contents m1 "service"), _. split; [exact Hrun|]. split; [|split].
  - unfold get_documents. simpl store. by rewrite read_all_memory.
  - rewrite Hs, stored_healthy_length. reflexivity.
  - rewrite Hs. apply stored_healthy_titles.
Qed.

Lemma seeded_services_listed_witness :
  ∃ w1 docs w2,
    startup_event (adapter:=memory_adapter healthy healthy) (World (Memory ∅ 0 0) []) = (Ok (), w1)
    ∧ get_documents (adapter:=memory_adapter healthy healthy) "service" None None w1 = (Ok docs, w2)
    ∧ length docs = 10
    ∧ (λ d : doc, d !! "title") <$> docs =
      (λ svc, Some (VStr (Service.title svc))) <$> service_defaults.
Proof.
  apply (seeded_services_listed (Memory ∅ 0 0) []). reflexivity.
Defined.

(** The titles of the default services, as the source lists them. *)
Example service_default_titles :
  Service.title <$> service_defaults =
  [ "Company Incorporation (Pvt Ltd/LLP)"; "Annual ROC Filings"; "Director KYC (DIR-3 KYC)";
    "GST Registration & Returns"; "Share Allotment & Transfer"; "Secretarial Audit & Compliance";
    "MSME/Udyam Registration"; "Trademark Filing (Partner Network)"; "ESOP/Cap Table Advisory";
    "FEMA/FDI Compliance" ].
Proof. reflexivity. Qed.

(** ** The list endpoints *)

(** C2, as the code has it: when every [get_documents] call raises, both
    list endpoints answer 200 with their two fallback records and a
    warning that is the first 120 characters of the error's text; the
    warning is non-empty whenever that text is. *)
Theorem list_fallback {S : Type} {adapter : Adapter S} (c : managed) (w : world S) :
  unreachable →
  ∃ e warning,
    (adapter_get_documents (collection_of c) None None (store w)).1 = Raise e
    ∧ respond (list_endpoint c w).1 = (200, Json (Envelope (fallback_of c) (Some warning)))
    ∧ length (fallback_of c) = 2
    ∧ warning = slice_to 120 (str_exn e)
    ∧ String.length warning ≤ 120
    ∧ (str_exn e ≠ "" → warning ≠ "").
Proof.
  intros Hdown.
  destruct (Hdown (collection_of c) None None (store w)) as (e & s & Hget).
  exists e, (slice_to 120 (str_exn e)). rewrite Hget.
  rewrite (list_endpoint_failure c w e s Hget). cbn [fst respond].
  repeat split.
  - by destruct c.
  - apply slice_to_length.
  - apply slice_to_nonempty.
Qed.

Lemma list_fallback_witness :
  ∃ e warning,
    (adapter_get_documents (Adapter:=down) "service" None None ()).1 = Raise e
    ∧ respond (list_services (adapter:=down) (World () [])).1 =
        (200, Json (Envelope services_fallback (Some warning)))
    ∧ length services_fallback = 2
    ∧ warning = slice_to 120 (str_exn e)
    ∧ String.length warning ≤ 120
    ∧ (str_exn e ≠ "" → warning ≠ "").
Proof.
  apply (list_fallback (adapter:=down) service (World () [])).
  intros collection_name filter_dict limit s. by eexists _, _.
Defined.

(** C2 as stated fails: on an adapter that always raises an exception
    with an empty text, both list endpoints answer with an empty
    warning. *)
Lemma list_fallback_empty_warning :
  (∀ collection_name filter_dict limit s,
     ∃ e s', adapter_get_documents (Adapter:=silent) collection_name filter_dict limit s = (Raise e, s'))
  ∧ respond (list_services (adapter:=silent) (World () [])).1 =
      (200, Json (Envelope services_fallback (Some "")))
  ∧ respond (list_blogs (adapter:=silent) (World () [])).1 =
      (200, Json (Envelope blogs_fallback (Some ""))).
Proof.
  split; [|split; reflexivity].
  intros collection_name filter_dict limit s. by eexists _, _.
Qed.

(** C7, as the code has it: on the success path of both list endpoints,
    a record whose [_id] is truthy comes back with [id] holding the
    text of that identifier and without [_id]. *)
Theorem list_renames_identifier {S : Type} {adapter : Adapter S} (c : managed) (w : world S)
    (docs : list doc) (s : S) :
  adapter_get_documents (collection_of c) None None (store w) = (Ok docs, s) →
  ∃ out,
    respond (list_endpoint c w).1 = (200, Json (Envelope out None))
    ∧ length out = length docs
    ∧ ∀ i (d : doc) oid,
        docs !! i = Some d → d !! "_id" = Some oid → truthy oid = true →
        ∃ d' : doc, out !! i = Some d'
          ∧ d' !! "id" = Some (VStr (py_str oid))
          ∧ d' !! "_id" = None.
Proof.
  intros Hget. exists (rename_id <$> docs).
  rewrite (list_endpoint_success c w docs s Hget). simpl.
  split; [done|]. split; [by rewrite length_fmap|].
  intros i d oid Hd Hid Ht. exists (rename_id d). split.
  - by rewrite list_lookup_fmap, Hd.
  - by apply rename_id_truthy.
Qed.

Lemma list_renames_identifier_witness :
  ∃ out,
    respond (list_blogs (adapter:=stub_adapter (Ok [one_post]) (Ok "1")) (World () [])).1 =
      (200, Json (Envelope out None))
    ∧ length out = 1
    ∧ ∀ i (d : doc) oid,
        [one_post] !! i = Some d → d !! "_id" = Some oid → truthy oid = true →
        ∃ d' : doc, out !! i = Some d'
          ∧ d' !! "id" = Some (VStr (py_str oid))
          ∧ d' !! "_id" = None.
Proof.
  apply (list_renames_identifier (adapter:=stub_adapter (Ok [one_post]) (Ok "1"))
           blogpost (World () []) [one_post] ()).
  reflexivity.
Defined.

(** C7 as stated fails: a record that carries [_id] with the value [0]
    comes back as it is, with [_id] and without [id]. *)
Lemma list_keeps_falsy_identifier :
  legacy !! "_id" = Some (VInt 0)
  ∧ respond (list_services (adapter:=stub_adapter (Ok [legacy]) (Ok "1")) (World () [])).1 =
      (200, Json (Envelope [legacy] None))
  ∧ legacy !! "id" = None.
Proof. repeat split. Qed.

(** C10: on the success path of both list endpoints, a record with no
    [_id], or with a falsy one, comes back as it is. *)
Theorem list_passes_unidentified {S : Type} {adapter : Adapter S} (c : managed) (w : world S)
    (docs : list doc) (s : S) :
  adapter_get_documents (collection_of c) None None (store w) = (Ok docs, s) →
  ∃ out,
    respond (list_endpoint c w).1 = (200, Json (Envelope out None))
    ∧ length out = length docs
    ∧ ∀ i (d : doc),
        docs !! i = Some d →
        d !! "_id" = None ∨ (∃ v, d !! "_id" = Some v ∧ truthy v = false) →
        out !! i = Some d.
Proof.
  intros Hget. exists (rename_id <$> docs).
  rewrite (list_endpoint_success c w docs s Hget). simpl.
  split; [done|]. split; [by rewrite length_fmap|].
  intros i d Hd Hid.
  rewrite list_lookup_fmap, Hd. simpl. by rewrite (rename_id_other d Hid).
Qed.

Lemma list_passes_unidentified_witness :
  ∃ out,
    respond (list_services (adapter:=stub_adapter (Ok [legacy; draft]) (Ok "1")) (World () [])).1 =
      (200, Json (Envelope out None))
    ∧ length out = 2
    ∧ ∀ i (d : doc),
        [legacy; draft] !! i = Some d →
        d !! "_id" = None ∨ (∃ v, d !! "_id" = Some v ∧ truthy v = false) →
        out !! i = Some d.
Proof.
  apply (list_passes_unidentified (adapter:=stub_adapter (Ok [legacy; draft]) (Ok "1"))
           service (World () []) [legacy; draft] ()).
  reflexivity.
Defined.

(** ** The contact endpoint *)

(** C3: when every [create_document] call raises, a contact submission
    is answered with status 500 and a [detail] that ends with the first
    100 characters of the error's text. *)
Theorem contact_failure_reported {S : Type} {adapter : Adapter S}
    (message : ContactMessage.t) (w : world S) :
  unwritable →
  ∃ e,
    (adapter_create_document "contactmessage" (RContactMessage message) (store w)).1 = Raise e
    ∧ respond (submit_contact message w).1 =
        (500, Detail ("Unable to submit right now: " +:+ slice_to 100 (str_exn e)))
    ∧ String.length (slice_to 100 (str_exn e)) ≤ 100.
Proof.
  intros Hdown.
  destruct (Hdown "contactmessage" (RContactMessage message) (store w)) as (e & s & Hput).
  exists e. rewrite Hput. split; [done|]. split; [|apply slice_to_length].
  unfold submit_contact, try_except, mbind, M_bind, create_document. by rewrite Hput.
Qed.

Lemma contact_failure_reported_witness :
  ∃ e,
    (adapter_create_document (Adapter:=down) "contactmessage" (RContactMessage hello) ()).1 = Raise e
    ∧ respond (submit_contact (adapter:=down) hello (World () [])).1 =
        (500, Detail ("Unable to submit right now: " +:+ slice_to 100 (str_exn e)))
    ∧ String.length (slice_to 100 (str_exn e)) ≤ 100.
Proof.
  apply (contact_failure_reported (adapter:=down) hello (World () [])).
  intros collection_name data s. by eexists _, _.
Defined.

(** C8: when the store accepts the write, a contact submission makes
    one [create_document] call, for that message in the contactmessage
    collection, leaves the store as that write left it, and is answered
    with status 200 and the fixed acknowledgment. *)
Theorem contact_acknowledged {S : Type} {adapter : Adapter S}
    (message : ContactMessage.t) (w : world S) (oid : string) (s : S) :
  adapter_create_document "contactmessage" (RContactMessage message) (store w) = (Ok oid, s) →
  submit_contact message w =
    (Ok acknowledgment,
     World s (trace w ++ [CreateDocument "contactmessage" (RContactMessage message)]))
  ∧ respond (submit_contact message w).1 =
      (200, Json (ContactResponse.mk "ok" "Thank you! We'll reach out shortly.")).
Proof.
  intros Hput.
  unfold submit_contact, try_except, mbind, M_bind, create_document. by rewrite Hput.
Qed.

Lemma contact_acknowledged_witness :
  submit_contact (adapter:=memory_adapter healthy healthy) hello (World (Memory ∅ 0 0) []) =
    (Ok acknowledgment,
     World (Memory {[ "contactmessage" := [kept 0 (RContactMessage hello)] ]} 0 1)
           [CreateDocument "contactmessage" (RContactMessage hello)])
  ∧ respond (submit_contact (adapter:=memory_adapter healthy healthy) hello (World (Memory ∅ 0 0) [])).1 =
      (200, Json (ContactResponse.mk "ok" "Thank you! We'll reach out shortly.")).
Proof.
  apply (contact_acknowledged (adapter:=memory_adapter healthy healthy) hello
           (World (Memory ∅ 0 0) []) (object_id 0)).
  reflexivity.
Defined.

(** On the in-memory store the accepted message is the last record of
    its collection. *)
Lemma contact_kept_in_memory read_fault write_fault (message : ContactMessage.t) m tr :
  write_fault (writes m) = None →
  ∃ m',
    (submit_contact (adapter:=memory_adapter read_fault write_fault) message (World m tr)).2 =
      World m' (tr ++ [CreateDocument "contactmessage" (RContactMessage message)])
    ∧ contents m' "contactmessage" =
        contents m "contactmessage" ++ [kept (writes m) (RContactMessage message)].
Proof.
  intros Hup. eexists. split.
  - unfold submit_contact, try_except, mbind, M_bind, create_document. simpl.
    unfold memory_create_document. rewrite Hup. reflexivity.
  - unfold contents at 1. simpl. by rewrite lookup_total_insert_eq.
Qed.

(** ** The diagnostics endpoint *)

(** [test_database] always returns; its answer reports the backend as
    running, at most ten collection names, and for each of the two
    configuration variables whether it is set. *)
Lemma test_database_returns (db : option Database) (environ : gmap string string) :
  ∃ response names,
    test_database db environ = Ok response
    ∧ response !! "backend" = Some (VStr "✅ Running")
    ∧ response !! "collections" = Some (strs names) ∧ length names ≤ 10
    ∧ response !! "database_url" =
        Some (VStr (if getenv environ "DATABASE_URL" then "✅ Set" else "❌ Not Set"))
    ∧ response !! "database_name" =
        Some (VStr (if getenv environ "DATABASE_NAME" then "✅ Set" else "❌ Not Set")).
Proof.
  unfold test_database.
  generalize (getenv environ "DATABASE_URL") (getenv environ "DATABASE_NAME"). intros u n.
  destruct db as [[[|v|e] [collections|e']]|];
    eexists _, _; (split; [reflexivity|]);
    repeat (rewrite lookup_insert_ne by done || rewrite lookup_insert_eq);
    repeat split; try reflexivity.
  all: try (instantiate (1 := [])); try (simpl; lia).
  all: try reflexivity.
  all: rewrite length_take; lia.
Qed.

(** C9: with a reachable database whose name can be read and with both
    configuration variables set, the answer holds the marker of the
    variable under [database_name], and the name of the store under no
    key. *)
Theorem test_database_drops_store_name :
  ∃ response,
    test_database (Some portfolio)
      {[ "DATABASE_URL" := "mongodb://localhost:27017"; "DATABASE_NAME" := "portfolio" ]} = Ok response
    ∧ response !! "database" = Some (VStr "✅ Connected & Working")
    ∧ response !! "collections" = Some (strs ["service"; "blogpost"])
    ∧ response !! "database_name" = Some (VStr "✅ Set")
    ∧ ∀ key, response !! key ≠ Some (VStr "portfolio").
Proof.
  eexists. split; [reflexivity|]. split; [done|]. split; [done|]. split; [done|].
  intros key Hkey.
  match type of Hkey with
  | ?response !! _ = _ =>
      assert (Hall : map_Forall (λ _ v, pyval_eqb v (VStr "portfolio") = false) response)
  end.
  { apply (bool_decide_unpack _). vm_compute. exact I. }
  specialize (Hall key _ Hkey). cbv beta in Hall. by rewrite pyval_eqb_refl in Hall.
Qed.

(** * Further properties *)

(** ** Slicing *)

Lemma slice_to_prefix n s : ∃ rest, s = slice_to n s +:+ rest.
Proof.
  revert s. induction n as [|n IH]; intros s.
  - exists s. by destruct s.
  - destruct s as [|c s]; [by exists ""|].
    destruct (IH s) as [rest Hrest]. exists rest.
    change (String c s = String c (slice_to n s +:+ rest)). by f_equal.
Qed.

Lemma slice_to_length_min n s :
  String.length (slice_to n s) = n `min` String.length s.
Proof.
  revert s. induction n as [|n IH]; intros [|c s]; simpl; try done.
  by rewrite IH.
Qed.

Lemma length_append_string (a b : string) :
  String.length (a +:+ b) = String.length a + String.length b.
Proof.
  induction a as [|c a IH]; [done|].
  change (S (String.length (a +:+ b)) = S (String.length a) + String.length b).
  by rewrite IH.
Qed.

(** ** The seeding routine, whatever the store does *)

(** The calls a seeding function adds: its query, then nothing or one
    write per default. *)
Lemma seed_shape {S : Type} {adapter : Adapter S} (c : managed) (w : world S) :
  ∃ s added,
    seed c w = (Ok (), World s (trace w ++ probe c :: added))
    ∧ (added = [] ∨ added = CreateDocument (collection_of c) <$> defaults_of c).
Proof.
  rewrite seed_run.
  destruct (adapter_get_documents _ _ _ _) as [[[|d ds]|e] s];
    [rewrite insert_loop_run; simpl; rewrite <- app_assoc|..]; eauto.
Qed.

(** X1: for every adapter, a seeding function returns normally, and the
    adapter calls it makes are its query alone, or its query followed
    by one write per default in order; the writes are made exactly when
    the query returned an empty list. *)
Theorem seed_calls {S : Type} {adapter : Adapter S} (c : managed) (w : world S) :
  ∃ s,
    (seed c w = (Ok (), World s (trace w ++ [probe c]))
     ∧ (adapter_get_documents (collection_of c) (Some ∅) (Some 1) (store w)).1 ≠ Ok [])
    ∨ (seed c w = (Ok (), World s (trace w ++ probe c ::
                                      (CreateDocument (collection_of c) <$> defaults_of c)))
       ∧ (adapter_get_documents (collection_of c) (Some ∅) (Some 1) (store w)).1 = Ok []).
Proof.
  rewrite seed_run.
  destruct (adapter_get_documents _ _ _ _) as [[[|d ds]|e] s]; simpl.
  - rewrite insert_loop_run. simpl. rewrite <- app_assoc. eauto.
  - exists s. by left.
  - exists s. by left.
Qed.

(** X2: for every adapter, startup returns normally; the blog posts are
    seeded from the state the service seeding left, whatever happened
    there; and startup makes between 2 and 15 adapter calls. *)
Theorem startup_always_returns {S : Type} {adapter : Adapter S} (w : world S) :
  ∃ w' added,
    startup_event w = (Ok (), w')
    ∧ w' = (seed blogpost (seed service w).2).2
    ∧ trace w' = trace w ++ added
    ∧ 2 ≤ length added ≤ 15.
Proof.
  rewrite startup_run.
  destruct (seed_shape service w) as (s1 & a1 & -> & H1).
  destruct (seed_shape blogpost (World s1 (trace w ++ probe service :: a1))) as (s2 & a2 & E2 & H2).
  cbn [snd]. rewrite !E2. cbn [snd trace].
  exists (World s2 ((trace w ++ probe service :: a1) ++ probe blogpost :: a2)),
         (probe service :: a1 ++ probe blogpost :: a2).
  split; [done|]. split; [done|]. split.
  - simpl. by rewrite <- app_assoc.
  - simpl. rewrite length_app. simpl.
    destruct H1 as [-> | ->], H2 as [-> | ->]; simpl; lia.
Qed.

(** ** The list endpoints, whatever the store does *)

Lemma list_endpoint_run {S : Type} {adapter : Adapter S} (c : managed) (w : world S) :
  list_endpoint c w =
  let '(r, s) := adapter_get_documents (collection_of c) None None (store w) in
  (Ok match r with
      | Ok docs => Envelope (rename_id <$> docs) None
      | Raise e => Envelope (fallback_of c) (Some (slice_to 120 (str_exn e)))
      end,
   World s (trace w ++ [GetDocuments (collection_of c) None None])).
Proof.
  destruct (adapter_get_documents _ _ _ _) as [[docs|e] s] eqn:E.
  - by apply list_endpoint_success.
  - by apply list_endpoint_failure.
Qed.


(** X4: the answer of a list endpoint carries a warning exactly when
    the store read raised; it then holds the fallback records, and
    otherwise as many records as the store returned. *)
Theorem list_warning_iff_failure {S : Type} {adapter : Adapter S} (c : managed) (w : world S) :
  ∃ env,
    (list_endpoint c w).1 = Ok env
    ∧ (is_Some (warning env) ↔
       ∃ e, (adapter_get_documents (collection_of c) None None (store w)).1 = Raise e)
    ∧ (∀ e, (adapter_get_documents (collection_of c) None None (store w)).1 = Raise e →
            data env = fallback_of c)
    ∧ (∀ docs, (adapter_get_documents (collection_of c) None None (store w)).1 = Ok docs →
               length (data env) = length docs).
Proof.
  rewrite list_endpoint_run.
  destruct (adapter_get_documents _ _ _ _) as [[docs|e] s]; eexists; (split; [reflexivity|]);
    cbn [fst warning data].
  - split; [|split].
    + split; [by intros [text ?] | by intros [e ?]].
    + done.
    + intros ? [= <-]. by rewrite length_fmap.
  - split; [|split].
    + split; [by exists e | by exists (slice_to 120 (str_exn e))].
    + done.
    + done.
Qed.

Lemma rename_id_fields (d : doc) (k : string) :
  k ≠ "id" → k ≠ "_id" → rename_id d !! k = d !! k.
Proof.
  intros Hid Hoid. unfold rename_id.
  destruct (d !! "_id") as [oid|] eqn:E; [|done].
  destruct (truthy oid); [|done].
  rewrite lookup_insert_ne by done. by rewrite lookup_delete_ne.
Qed.

Lemma rename_id_hides (d : doc) v :
  rename_id d !! "_id" = Some v → truthy v = false.
Proof.
  unfold rename_id.
  destruct (d !! "_id") as [oid|] eqn:E.
  - destruct (truthy oid) eqn:Ht.
    + rewrite lookup_insert_ne by done. by rewrite lookup_delete_eq.
    + rewrite E. by intros [= <-].
  - by rewrite E.
Qed.

(** X5: on the success path of a list endpoint, every field of a stored
    record other than [id] and [_id] comes back with the same value, or
    stays absent, at the same position. *)
Theorem list_keeps_fields {S : Type} {adapter : Adapter S} (c : managed) (w : world S)
    (docs : list doc) (s : S) :
  adapter_get_documents (collection_of c) None None (store w) = (Ok docs, s) →
  ∃ out,
    (list_endpoint c w).1 = Ok (Envelope out None)
    ∧ ∀ i (d : doc) (k : string),
        docs !! i = Some d → k ≠ "id" → k ≠ "_id" →
        ∃ d' : doc, out !! i = Some d' ∧ d' !! k = d !! k.
Proof.
  intros Hget. exists (rename_id <$> docs).
  rewrite (list_endpoint_success c w docs s Hget). split; [done|].
  intros i d k Hd Hid Hoid. exists (rename_id d). split.
  - by rewrite list_lookup_fmap, Hd.
  - by apply rename_id_fields.
Qed.

Lemma list_keeps_fields_witness :
  ∃ out,
    (list_services (adapter:=stub_adapter (Ok [one_post; legacy]) (Ok "1")) (World () [])).1 =
      Ok (Envelope out None)
    ∧ ∀ i (d : doc) (k : string),
        [one_post; legacy] !! i = Some d → k ≠ "id" → k ≠ "_id" →
        ∃ d' : doc, out !! i = Some d' ∧ d' !! k = d !! k.
Proof.
  apply (list_keeps_fields (adapter:=stub_adapter (Ok [one_post; legacy]) (Ok "1"))
           service (World () []) [one_post; legacy] ()).
  reflexivity.
Defined.

(** X6: on the success path of a list endpoint, no record of the answer
    carries a truthy [_id]. *)
Theorem list_hides_identifier {S : Type} {adapter : Adapter S} (c : managed) (w : world S)
    (docs : list doc) (s : S) :
  adapter_get_documents (collection_of c) None None (store w) = (Ok docs, s) →
  ∃ out,
    (list_endpoint c w).1 = Ok (Envelope out None)
    ∧ ∀ i (d' : doc) v, out !! i = Some d' → d' !! "_id" = Some v → truthy v = false.
Proof.
  intros Hget. exists (rename_id <$> docs).
  rewrite (list_endpoint_success c w docs s Hget). split; [done|].
  intros i d' v Hout Hv. rewrite list_lookup_fmap in Hout.
  destruct (docs !! i) as [d|]; [|done]. simpl in Hout. injection Hout as <-.
  by apply (rename_id_hides d).
Qed.

Lemma list_hides_identifier_witness :
  ∃ out,
    (list_blogs (adapter:=stub_adapter (Ok [one_post; legacy; draft]) (Ok "1")) (World () [])).1 =
      Ok (Envelope out None)
    ∧ ∀ i (d' : doc) v, out !! i = Some d' → d' !! "_id" = Some v → truthy v = false.
Proof.
  apply (list_hides_identifier (adapter:=stub_adapter (Ok [one_post; legacy; draft]) (Ok "1"))
           blogpost (World () []) [one_post; legacy; draft] ()).
  reflexivity.
Defined.

(** X7: the loop body of the list endpoints changes nothing when it is
    applied to a record it has already handled. *)
Theorem rename_id_idempotent (d : doc) : rename_id (rename_id d) = rename_id d.
Proof.
  apply rename_id_other.
  destruct (rename_id d !! "_id") as [v|] eqn:E; [right|by left].
  exists v. split; [done|]. by apply (rename_id_hides d).
Qed.

(** X8: on the fallback path of a list endpoint, the warning is a
    prefix of the error's text, of length 120 or the length of that
    text if it is shorter; a text of at most 120 characters is the
    warning as it is. *)
Theorem list_warning_prefix {S : Type} {adapter : Adapter S} (c : managed) (w : world S)
    (e : exn) (s : S) :
  adapter_get_documents (collection_of c) None None (store w) = (Raise e, s) →
  ∃ text rest,
    (list_endpoint c w).1 = Ok (Envelope (fallback_of c) (Some text))
    ∧ str_exn e = text +:+ rest
    ∧ String.length text = 120 `min` String.length (str_exn e)
    ∧ (String.length (str_exn e) ≤ 120 → text = str_exn e).
Proof.
  intros Hget. rewrite (list_endpoint_failure c w e s Hget).
  destruct (slice_to_prefix 120 (str_exn e)) as [rest Hrest].
  exists (slice_to 120 (str_exn e)), rest. cbn [fst].
  split; [done|]. split; [done|]. split.
  - apply slice_to_length_min.
  - apply slice_to_short.
Qed.

Lemma list_warning_prefix_witness :
  ∃ text rest,
    (list_services (adapter:=down) (World () [])).1 = Ok (Envelope services_fallback (Some text))
    ∧ "Database not available" = text +:+ rest
    ∧ String.length text = 120 `min` String.length "Database not available"
    ∧ (String.length "Database not available" ≤ 120 → text = "Database not available").
Proof.
  apply (list_warning_prefix (adapter:=down) service (World () [])
           (Exception "Database not available") ()).
  reflexivity.
Defined.

(** ** The contact endpoint, whatever the store does *)

(** X9: for every adapter, a contact submission makes exactly one
    adapter call, the write of that message, and leaves the store as
    the write left it; it is answered with 200 exactly when the write
    returned, and with 500 otherwise. *)
Theorem contact_one_write {S : Type} {adapter : Adapter S}
    (message : ContactMessage.t) (w : world S) :
  (submit_contact message w).2 =
    World (adapter_create_document "contactmessage" (RContactMessage message) (store w)).2
          (trace w ++ [CreateDocument "contactmessage" (RContactMessage message)])
  ∧ ((respond (submit_contact message w).1).1 = 200 ↔
     ∃ oid, (adapter_create_document "contactmessage" (RContactMessage message) (store w)).1 = Ok oid)
  ∧ ((respond (submit_contact message w).1).1 = 200
     ∨ (respond (submit_contact message w).1).1 = 500).
Proof.
  unfold submit_contact, try_except, mbind, M_bind, create_document, raise.
  destruct (adapter_create_document _ _ _) as [[oid|e] s]; simpl.
  - split; [done|]. split; [|by left]. split; eauto.
  - split; [done|]. split; [|by right]. split; [done|]. by intros [? ?].
Qed.

(** X10: when the write raises, the [detail] of the answer is the fixed
    text followed by a prefix of the error's text, and has at most 128
    characters. *)
Theorem contact_detail_bounded {S : Type} {adapter : Adapter S}
    (message : ContactMessage.t) (w : world S) (e : exn) (s : S) :
  adapter_create_document "contactmessage" (RContactMessage message) (store w) = (Raise e, s) →
  ∃ text rest,
    respond (submit_contact message w).1 =
      (500, Detail ("Unable to submit right now: " +:+ text))
    ∧ str_exn e = text +:+ rest
    ∧ String.length ("Unable to submit right now: " +:+ text) ≤ 128.
Proof.
  intros Hput.
  destruct (slice_to_prefix 100 (str_exn e)) as [rest Hrest].
  exists (slice_to 100 (str_exn e)), rest. split; [|split; [done|]].
  - unfold submit_contact, try_except, mbind, M_bind, create_document. by rewrite Hput.
  - rewrite length_append_string.
    pose proof (slice_to_length 100 (str_exn e)).
    change (String.length "Unable to submit right now: ") with 28. lia.
Qed.

Lemma contact_detail_bounded_witness :
  ∃ text rest,
    respond (submit_contact (adapter:=down) hello (World () [])).1 =
      (500, Detail ("Unable to submit right now: " +:+ text))
    ∧ "Database not available" = text +:+ rest
    ∧ String.length ("Unable to submit right now: " +:+ text) ≤ 128.
Proof.
  apply (contact_detail_bounded (adapter:=down) hello (World () [])
           (Exception "Database not available") ()).
  reflexivity.
Defined.

(** ** The diagnostics endpoint, whatever the database handle does *)

(** The answer as a function of the handle and of the two flags. *)
Lemma test_database_cases (db : option Database) (environ : gmap string string) :
  ∃ response,
    test_database db environ = Ok response
    ∧ dom response = diagnostics_keys
    ∧ response !! "backend" = Some (VStr "✅ Running")
    ∧ response !! "connection_status" =
        Some (VStr match db with
                   | Some {| name := Failing _ |} | None => "Not Connected"
                   | Some _ => "Connected"
                   end)
    ∧ response !! "collections" =
        Some (strs match db with
                   | Some {| name := Failing _ |} | None => []
                   | Some {| list_collection_names := Ok names |} => take 10 names
                   | Some {| list_collection_names := Raise _ |} => []
                   end)
    ∧ response !! "database" =
        Some (VStr match db with
                   | None => "⚠️  Available but not initialized"
                   | Some {| name := Failing e |} => "❌ Error: " +:+ slice_to 50 (str_exn e)
                   | Some {| list_collection_names := Ok _ |} => "✅ Connected & Working"
                   | Some {| list_collection_names := Raise e |} =>
                       "⚠️  Connected but Error: " +:+ slice_to 50 (str_exn e)
                   end).
Proof.
  unfold test_database.
  generalize (getenv environ "DATABASE_URL") (getenv environ "DATABASE_NAME"). intros u n.
  destruct db as [[[|v|e] [collections|e']]|];
    eexists; (split; [reflexivity|]);
    (split; [unfold diagnostics_keys; rewrite !dom_insert_L, dom_list_to_map_L; set_solver|]);
    repeat (rewrite lookup_insert_ne by done || rewrite lookup_insert_eq);
    repeat split.
Qed.

(** X11: [test_database] returns for every database handle and
    environment; its answer has the same six keys in every case,
    reports the backend as running, and lists at most ten collection
    names. *)
Theorem test_database_shape (db : option Database) (environ : gmap string string) :
  ∃ response names,
    test_database db environ = Ok response
    ∧ dom response = diagnostics_keys
    ∧ response !! "backend" = Some (VStr "✅ Running")
    ∧ response !! "collections" = Some (strs names)
    ∧ length names ≤ 10.
Proof.
  destruct (test_database_cases db environ) as (response & Hrun & Hdom & Hb & _ & Hc & _).
  exists response. eexists. split; [done|]. split; [done|]. split; [done|]. split; [exact Hc|].
  destruct db as [[[|v|e] [names|e']]|]; simpl; try lia; rewrite length_take; lia.
Qed.

(** X12: the answer says [Connected] exactly when there is a database
    handle and reading its [name] does not raise; otherwise it says
    [Not Connected]. *)
Theorem test_database_connection (db : option Database) (environ : gmap string string) :
  ∃ response,
    test_database db environ = Ok response
    ∧ (response !! "connection_status" = Some (VStr "Connected") ↔
       ∃ d, db = Some d ∧ ∀ e, name d ≠ Failing e)
    ∧ (response !! "connection_status" = Some (VStr "Connected")
       ∨ response !! "connection_status" = Some (VStr "Not Connected")).
Proof.
  destruct (test_database_cases db environ) as (response & Hrun & _ & _ & Hs & _).
  exists response. split; [done|]. rewrite Hs.
  destruct db as [[[|v|e] lc]|]; simpl.
  - split; [|by left]. split; [|done]. intros _. by eexists.
  - split; [|by left]. split; [|done]. intros _. by eexists.
  - split; [|by right]. split; [done|]. intros (d & [= <-] & Hd). by destruct (Hd e).
  - split; [|by right]. split; [done|]. by intros (d & ? & _).
Qed.

(** X13: when the handle's [name] can be read or is missing and the
    listing call returns, the answer reports the database as connected
    and working, with the first ten of the listed names, in order. *)
Theorem test_database_working (db : Database) (environ : gmap string string)
    (names : list string) :
  (∀ e, name db ≠ Failing e) →
  list_collection_names db = Ok names →
  ∃ response,
    test_database (Some db) environ = Ok response
    ∧ response !! "database" = Some (VStr "✅ Connected & Working")
    ∧ response !! "connection_status" = Some (VStr "Connected")
    ∧ response !! "collections" = Some (strs (take 10 names)).
Proof.
  intros Hname Hlist.
  destruct (test_database_cases (Some db) environ) as (response & Hrun & _ & _ & Hs & Hc & Hd).
  exists response. split; [done|]. rewrite Hs, Hc, Hd.
  destruct db as [[|v|e] lc]; simpl in *; subst; try done. by destruct (Hname e).
Qed.

Lemma test_database_working_witness :
  ∃ response,
    test_database (Some portfolio) ∅ = Ok response
    ∧ response !! "database" = Some (VStr "✅ Connected & Working")
    ∧ response !! "connection_status" = Some (VStr "Connected")
    ∧ response !! "collections" = Some (strs (take 10 ["service"; "blogpost"])).
Proof.
  apply (test_database_working portfolio ∅ ["service"; "blogpost"]); [discriminate | reflexivity].
Defined.

(** X14: when the listing call raises, the answer still says
    [Connected], lists no collection, and reports the error by a prefix
    of its text of at most 50 characters. *)
Theorem test_database_listing_fails (db : Database) (environ : gmap string string) (e : exn) :
  (∀ e', name db ≠ Failing e') →
  list_collection_names db = Raise e →
  ∃ response text rest,
    test_database (Some db) environ = Ok response
    ∧ response !! "database" = Some (VStr ("⚠️  Connected but Error: " +:+ text))
    ∧ str_exn e = text +:+ rest
    ∧ String.length text ≤ 50
    ∧ response !! "connection_status" = Some (VStr "Connected")
    ∧ response !! "collections" = Some (VList []).
Proof.
  intros Hname Hlist.
  destruct (test_database_cases (Some db) environ) as (response & Hrun & _ & _ & Hs & Hc & Hd).
  destruct (slice_to_prefix 50 (str_exn e)) as [rest Hrest].
  exists response, (slice_to 50 (str_exn e)), rest.
  split; [done|]. rewrite Hs, Hc, Hd.
  pose proof (slice_to_length 50 (str_exn e)).
  destruct db as [[|v|e'] lc]; simpl in *; subst; try done. by destruct (Hname e').
Qed.

Lemma test_database_listing_fails_witness :
  ∃ response text rest,
    test_database (Some stalled) ∅ = Ok response
    ∧ response !! "database" = Some (VStr ("⚠️  Connected but Error: " +:+ text))
    ∧ "timed out" = text +:+ rest
    ∧ String.length text ≤ 50
    ∧ response !! "connection_status" = Some (VStr "Connected")
    ∧ response !! "collections" = Some (VList []).
Proof.
  apply (test_database_listing_fails stalled ∅ (Exception "timed out")); [discriminate | reflexivity].
Defined.

(** X15: when reading the handle's [name] raises, the listing call is
    not reported: the answer says [Not Connected], lists no collection
    whatever the listing call would return, and reports the error by
    its first 50 characters. *)
Theorem test_database_name_raises (db : Database) (environ : gmap string string) (e : exn) :
  name db = Failing e →
  ∃ response,
    test_database (Some db) environ = Ok response
    ∧ response !! "database" = Some (VStr ("❌ Error: " +:+ slice_to 50 (str_exn e)))
    ∧ response !! "connection_status" = Some (VStr "Not Connected")
    ∧ response !! "collections" = Some (VList []).
Proof.
  intros Hname.
  destruct (test_database_cases (Some db) environ) as (response & Hrun & _ & _ & Hs & Hc & Hd).
  exists response. split; [done|]. rewrite Hs, Hc, Hd.
  destruct db as [nm lc]; simpl in *; subst. done.
Qed.

Lemma test_database_name_raises_witness :
  ∃ response,
    test_database (Some broken_handle) ∅ = Ok response
    ∧ response !! "database" =
        Some (VStr ("❌ Error: " +:+ slice_to 50 (str_exn (Exception "connection closed"))))
    ∧ response !! "connection_status" = Some (VStr "Not Connected")
    ∧ response !! "collections" = Some (VList []).
Proof.
  apply (test_database_name_raises broken_handle ∅ (Exception "connection closed")). reflexivity.
Defined.

(** X16: the answer marks a configuration variable as set exactly when
    the environment gives it a non-empty value; a variable set to the
    empty text is marked as not set. *)
Theorem test_database_flags (db : option Database) (environ : gmap string string) :
  ∃ response,
    test_database db environ = Ok response
    ∧ (response !! "database_url" = Some (VStr "✅ Set") ↔
       ∃ value, environ !! "DATABASE_URL" = Some value ∧ value ≠ "")
    ∧ (response !! "database_name" = Some (VStr "✅ Set") ↔
       ∃ value, environ !! "DATABASE_NAME" = Some value ∧ value ≠ "")
    ∧ (response !! "database_url" = Some (VStr "✅ Set")
       ∨ response !! "database_url" = Some (VStr "❌ Not Set"))
    ∧ (response !! "database_name" = Some (VStr "✅ Set")
       ∨ response !! "database_name" = Some (VStr "❌ Not Set")).
Proof.
  assert (Hflag : ∀ key, getenv environ key = true ↔
                         ∃ value, environ !! key = Some value ∧ value ≠ "").
  { intros key. unfold getenv. destruct (environ !! key) as [value|].
    - rewrite negb_true_iff, String.eqb_neq. split; [by exists value|by intros (? & [= <-] & ?)].
    - split; [done|by intros (? & ? & _)]. }
  destruct (test_database_returns db environ) as (response & names & Hrun & _ & _ & _ & Hu & Hn).
  exists response. split; [done|]. rewrite Hu, Hn, <- !Hflag.
  destruct (getenv environ "DATABASE_URL"), (getenv environ "DATABASE_NAME");
    repeat split; auto; discriminate.
Qed.

(** ** Seeding and the handlers on the in-memory store *)

Lemma stored_length_le write_fault n rs :
  length (stored write_fault n rs) ≤ length rs.
Proof.
  revert n. induction rs as [|r rs IH]; intros n; [done|].
  rewrite stored_cons. specialize (IH (S n)).
  destruct (write_fault n); simpl; lia.
Qed.

Lemma stored_accepted write_fault n rs i :
  i < length rs → write_fault (n + i) = None → stored write_fault n rs ≠ [].
Proof.
  revert n i. induction rs as [|r rs IH]; intros n i Hi Hok; [simpl in Hi; lia|].
  rewrite stored_cons. destruct (write_fault n) eqn:E; [|done].
  destruct i as [|i]; [by rewrite Nat.add_0_r, E in Hok|].
  apply (IH (S n) i); [simpl in Hi; lia|]. by rewrite Nat.add_succ_comm.
Qed.

Lemma stored_rejected write_fault n rs j :
  j < length rs → write_fault (n + j) ≠ None → length (stored write_fault n rs) < length rs.
Proof.
  revert n j. induction rs as [|r rs IH]; intros n j Hj Hno; [simpl in Hj; lia|].
  rewrite stored_cons. destruct (write_fault n) eqn:E.
  - pose proof (stored_length_le write_fault (S n) rs). simpl. lia.
  - destruct j as [|j]; [by rewrite Nat.add_0_r, E in Hno|].
    simpl. apply ->Nat.succ_lt_mono.
    apply (IH (S n) j); [simpl in Hj; lia|]. by rewrite Nat.add_succ_comm.
Qed.

(** X17: on the in-memory store, when a seeding pass over an empty
    collection has some writes accepted and some rejected, the
    collection ends up with fewer records than there are defaults, and
    no later run of the seeding function inserts anything into it,
    whatever the store does then: the rejected defaults stay missing. *)
Theorem partial_seed_stays_partial (read_fault write_fault : nat → option exn)
    (c : managed) (m : memory) (tr : list call) (i j : nat) :
  read_fault (reads m) = None →
  contents m (collection_of c) = [] →
  i < length (defaults_of c) → write_fault (writes m + i) = None →
  j < length (defaults_of c) → write_fault (writes m + j) ≠ None →
  ∃ m1,
    store (seed (adapter:=memory_adapter read_fault write_fault) c (World m tr)).2 = m1
    ∧ 0 < length (contents m1 (collection_of c)) < length (defaults_of c)
    ∧ ∀ read_fault' write_fault' tr',
        seed (adapter:=memory_adapter read_fault' write_fault') c (World m1 tr') =
          (Ok (), World (Memory (collections m1) (S (reads m1)) (writes m1)) (tr' ++ [probe c])).
Proof.
  intros Hup Hempty Hi Hok Hj Hno.
  destruct (seed_memory_empty read_fault write_fault c m tr Hup Hempty)
    as (m1 & Hrun & Hc & _).
  exists m1. rewrite Hrun. split; [done|].
  pose proof (stored_accepted write_fault (writes m) (defaults_of c) i Hi Hok) as Hne.
  pose proof (stored_rejected write_fault (writes m) (defaults_of c) j Hj Hno) as Hlt.
  rewrite <- Hc in Hne, Hlt. split.
  - split; [|done]. destruct (contents m1 (collection_of c)); [done|simpl; lia].
  - intros read_fault' write_fault' tr'. by apply seed_memory_nonempty.
Qed.

Lemma partial_seed_stays_partial_witness :
  ∃ m1,
    store (seed (adapter:=memory_adapter healthy flaky) blogpost (World (Memory ∅ 0 0) [])).2 = m1
    ∧ 0 < length (contents m1 "blogpost") < length (defaults_of blogpost)
    ∧ ∀ read_fault' write_fault' tr',
        seed (adapter:=memory_adapter read_fault' write_fault') blogpost (World m1 tr') =
          (Ok (), World (Memory (collections m1) (S (reads m1)) (writes m1)) (tr' ++ [probe blogpost])).
Proof.
  apply (partial_seed_stays_partial healthy flaky blogpost (Memory ∅ 0 0) [] 0 1);
    try reflexivity; try (simpl; lia); discriminate.
Defined.

Lemma hex_fixed_length digits n acc :
  String.length (hex_fixed digits n acc) = digits + String.length acc.
Proof.
  revert n acc. induction digits as [|digits IH]; intros n acc; [done|].
  simpl. rewrite IH. simpl. lia.
Qed.

Lemma stored_healthy_lookup n rs i r :
  rs !! i = Some r → stored healthy n rs !! i = Some (kept (n + i) r).
Proof.
  revert n i. induction rs as [|r' rs IH]; intros n i Hi; [done|].
  rewrite stored_cons. simpl. destruct i as [|i]; simpl in *.
  - injection Hi as ->. by rewrite Nat.add_0_r.
  - rewrite (IH (S n) i Hi). by rewrite Nat.add_succ_comm.
Qed.

Lemma rename_id_kept i r :
  rename_id (kept i r) !! "_id" = None
  ∧ rename_id (kept i r) !! "id" = Some (VStr (object_id i))
  ∧ ∀ k, k ≠ "id" → k ≠ "_id" → rename_id (kept i r) !! k = to_document r !! k.
Proof.
  assert (Hid : kept i r !! "_id" = Some (VObjectId (object_id i))).
  { unfold kept. apply lookup_insert_eq. }
  destruct (rename_id_truthy (kept i r) _ Hid eq_refl) as [H1 H2].
  split; [done|]. split; [done|].
  intros k Hk Hk'. rewrite rename_id_fields by done.
  unfold kept. by rewrite lookup_insert_ne.
Qed.

(** X18: on the in-memory store, after startup on a healthy store with
    nothing in it, each list endpoint answers without a warning with
    one record per default, in order; each record has the fields of
    its default, an [id] of 24 characters and no [_id]. *)
Theorem startup_then_list (c : managed) (m : memory) (tr : list call) :
  collections m = ∅ →
  ∃ w1 out w2,
    startup_event (adapter:=memory_adapter healthy healthy) (World m tr) = (Ok (), w1)
    ∧ list_endpoint (adapter:=memory_adapter healthy healthy) c w1 = (Ok (Envelope out None), w2)
    ∧ length out = length (defaults_of c)
    ∧ ∀ i r, defaults_of c !! i = Some r →
        ∃ (d : doc) h, out !! i = Some d
          ∧ d !! "_id" = None
          ∧ d !! "id" = Some (VStr h) ∧ String.length h = 24
          ∧ ∀ k, k ≠ "id" → k ≠ "_id" → d !! k = to_document r !! k.
Proof.
  intros Hempty.
  destruct (startup_memory_first m tr Hempty) as (m1 & Hrun & Hs & Hb).
  assert (∃ n, contents m1 (collection_of c) = stored healthy n (defaults_of c)) as [n Hc].
  { destruct c; eauto. }
  eexists _, (rename_id <$> contents m1 (collection_of c)), _.
  split; [exact Hrun|]. split; [|split].
  - apply list_endpoint_success. simpl store. by rewrite read_all_memory.
  - by rewrite length_fmap, Hc, stored_healthy_length.
  - intros i r Hr. rewrite Hc, list_lookup_fmap, (stored_healthy_lookup n _ i r Hr). simpl.
    destruct (rename_id_kept (n + i) r) as (H1 & H2 & H3).
    exists (rename_id (kept (n + i) r)), (object_id (n + i)).
    split; [done|]. split; [done|]. split; [done|]. split; [|done].
    unfold object_id. by rewrite hex_fixed_length.
Qed.

Lemma startup_then_list_witness :
  ∃ w1 out w2,
    startup_event (adapter:=memory_adapter healthy healthy) (World (Memory ∅ 0 0) []) = (Ok (), w1)
    ∧ list_endpoint (adapter:=memory_adapter healthy healthy) blogpost w1 = (Ok (Envelope out None), w2)
    ∧ length out = length (defaults_of blogpost)
    ∧ ∀ i r, defaults_of blogpost !! i = Some r →
        ∃ (d : doc) h, out !! i = Some d
          ∧ d !! "_id" = None
          ∧ d !! "id" = Some (VStr h) ∧ String.length h = 24
          ∧ ∀ k, k ≠ "id" → k ≠ "_id" → d !! k = to_document r !! k.
Proof.
  apply (startup_then_list blogpost (Memory ∅ 0 0) []). reflexivity.
Defined.

(** X19: on the in-memory store, a contact submission whose write is
    accepted adds the message as the last record of the contactmessage
    collection; one whose write is rejected leaves every collection as
    it was; neither changes another collection. *)
Theorem contact_on_memory (read_fault write_fault : nat → option exn)
    (message : ContactMessage.t) (m : memory) (tr : list call) :
  ∃ m',
    store (submit_contact (adapter:=memory_adapter read_fault write_fault) message (World m tr)).2 = m'
    ∧ match write_fault (writes m) with
      | None => contents m' "contactmessage" =
                  contents m "contactmessage" ++ [kept (writes m) (RContactMessage message)]
      | Some _ => collections m' = collections m
      end
    ∧ ∀ other, other ≠ "contactmessage" → contents m' other = contents m other.
Proof.
  eexists. split; [reflexivity|].
  unfold submit_contact, try_except, mbind, M_bind, create_document, raise. simpl.
  unfold memory_create_document.
  destruct (write_fault (writes m)) as [e|]; simpl; (split; [|intros other Hne]); try done.
  - unfold contents at 1. simpl. by rewrite lookup_total_insert_eq.
  - unfold contents at 1. simpl. by rewrite lookup_total_insert_ne.
Qed.
